(** * TikTokWsClient (src/lib/ws/lib/ws-client.ts)

    A shallow embedding of the WebSocket push-frame client: its fields, its
    handlers written in a small state-and-output monad, and a trace
    interpreter for the events the transport, the timers and the caller
    deliver to it.  The Codec (frame encoding and decoding), the transport
    and the cookie jar are external: encoded frames are kept as the values
    they encode, decode outcomes are supplied by the environment, and the
    cookie string is an argument. *)

From Stdlib Require Import String Ascii List ZArith Bool Lia.
Import ListNotations.
Open Scope string_scope.
Open Scope list_scope.

(** ** Bytes and text *)

(** A byte is its value 0..255. *)
Definition Bytes := list Z.

(** UTF-8 encoding of one character; a Rocq [ascii] is a code point below 256. *)
Definition utf8_char (a : ascii) : Bytes :=
  let n := Z.of_nat (nat_of_ascii a) in
  if (n <? 128)%Z then [n]
  else [Z.lor 192 (Z.shiftr n 6); Z.lor 128 (Z.land n 63)].

(** [textEncoder.encode]. *)
Fixpoint textEncode (s : string) : Bytes :=
  match s with
  | EmptyString => []
  | String a s' => app (utf8_char a) (textEncode s')
  end.

(** ** JavaScript objects used as string maps

    An object is the list of its own properties in the order
    [OrdinaryOwnPropertyKeys] enumerates them: array-index keys in ascending
    numeric order first, then the other string keys in insertion order. *)

Definition JsObject := list (string * string).

Fixpoint js_get (o : JsObject) (k : string) : option string :=
  match o with
  | [] => None
  | (k', v) :: o' => if String.eqb k k' then Some v else js_get o' k
  end.

Definition is_digit (a : ascii) : bool :=
  ((48 <=? nat_of_ascii a) && (nat_of_ascii a <=? 57))%nat.

Fixpoint digits_value (s : string) (acc : Z) : option Z :=
  match s with
  | EmptyString => Some acc
  | String a s' =>
      if is_digit a then digits_value s' (acc * 10 + Z.of_nat (nat_of_ascii a - 48))%Z
      else None
  end.

(** An array index: the canonical decimal form of an integer [0 <= n < 2^32 - 1]
    (no sign, no leading zero except for ["0"] itself). *)
Definition array_index (k : string) : option Z :=
  match k with
  | EmptyString => None
  | String a rest =>
      if Ascii.eqb a "0"%char then
        match rest with EmptyString => Some 0%Z | _ => None end
      else
        match digits_value k 0 with
        | Some n => if (n <? 4294967295)%Z then Some n else None
        | None => None
        end
  end.

(** Assignment to an existing property: the value changes, the position does not. *)
Fixpoint js_update (o : JsObject) (k v : string) : JsObject :=
  match o with
  | [] => []
  | (k', v') :: o' => if String.eqb k k' then (k, v) :: o' else (k', v') :: js_update o' k v
  end.

(** A new array-index property goes before the first larger index and before
    every non-index key. *)
Fixpoint js_insert_index (o : JsObject) (n : Z) (k v : string) : JsObject :=
  match o with
  | [] => [(k, v)]
  | (k', v') :: o' =>
      match array_index k' with
      | Some n' => if (n <? n')%Z then (k, v) :: o else (k', v') :: js_insert_index o' n k v
      | None => (k, v) :: o
      end
  end.

(** Property assignment [o[k] = v]. *)
Definition js_set (o : JsObject) (k v : string) : JsObject :=
  match js_get o k with
  | Some _ => js_update o k v
  | None =>
      match array_index k with
      | Some n => js_insert_index o n k v
      | None => o ++ [(k, v)]
      end
  end.

(** Object spread [{ ...target, ...src }]: every own key of [src] is assigned in order. *)
Definition js_spread (target src : JsObject) : JsObject :=
  fold_left (fun o kv => js_set o (fst kv) (snd kv)) src target.

(** ** [new URLSearchParams(obj).toString()] (application/x-www-form-urlencoded) *)

Definition form_unreserved (b : Z) : bool :=
  (((48 <=? b) && (b <=? 57)) || ((65 <=? b) && (b <=? 90)) || ((97 <=? b) && (b <=? 122))
  || (b =? 42) || (b =? 45) || (b =? 46) || (b =? 95))%Z.

Definition hex_digit (n : Z) : ascii :=
  ascii_of_nat (Z.to_nat (if (n <? 10)%Z then 48 + n else 55 + n)%Z).

Definition form_byte (b : Z) : string :=
  if (b =? 32)%Z then "+"
  else if form_unreserved b then String (ascii_of_nat (Z.to_nat b)) EmptyString
  else String "%" (String (hex_digit (Z.shiftr b 4)) (String (hex_digit (Z.land b 15)) EmptyString)).

Definition form_urlencode (s : string) : string :=
  String.concat "" (map form_byte (textEncode s)).

Definition urlSearchParams (params : JsObject) : string :=
  String.concat "&" (map (fun kv => (form_urlencode (fst kv) ++ "=" ++ form_urlencode (snd kv))%string) params).

(** ** Protocol messages *)

Record HeartbeatMessage := { hb_roomId : option string }.

Record WebcastImEnterRoomMessage := {
  roomId : string;
  roomTag : string;
  liveRegion : string;
  liveId : string;
  identity : string;
  cursor : string;
  accountType : string;
  enterUniqueId : string;
  filterWelcomeMsg : string;
  isAnchorContinueKeepMsg : bool
}.

(** The payload of a frame, as the value the Codec encoded into it. *)
Inductive Payload :=
| HeartbeatPayload (m : HeartbeatMessage)
| ImEnterRoomPayload (m : WebcastImEnterRoomMessage)
| BytesPayload (b : Bytes).

(** A push frame; an unset field is [None]. *)
Record WebcastPushFrame := {
  logId : option string;
  payloadEncoding : option string;
  payloadType : option string;
  payload : option Payload;
  headers : option JsObject;
  service : option string;
  method : option string
}.

(** Modelled from the spec: [createBaseWebcastPushFrame] (src/lib/utilities,
    not among the sources) wraps the given fields in a base frame: the frame
    carries exactly the supplied fields, those left [undefined] stay unset. *)
Definition createBaseWebcastPushFrame (fields : WebcastPushFrame) : WebcastPushFrame :=
  {| logId := logId fields;
     payloadEncoding := payloadEncoding fields;
     payloadType := payloadType fields;
     payload := payload fields;
     headers := headers fields;
     service := service fields;
     method := method fields |}.

(** What [sendBytes] is given: an encoded frame, or arbitrary caller bytes. *)
Inductive Data :=
| EncodedFrame (f : WebcastPushFrame)
| RawBytes (b : Bytes).

Record ProtoMessageFetchResult := {
  needsAck : bool;
  internalExt : string
}.

Module Decoded.
(** [DecodedWebcastPushFrame], the result of [deserializeWebSocketMessage]. *)
Record DecodedWebcastPushFrame := {
  logId : option string;
  payloadType : string;
  protoMessageFetchResult : option ProtoMessageFetchResult
}.
End Decoded.
Definition DecodedWebcastPushFrame := Decoded.DecodedWebcastPushFrame.

(** Outcome of the awaited [deserializeWebSocketMessage] call. *)
Inductive DecodeResult :=
| DecodeOk (d : DecodedWebcastPushFrame)
| DecodeError (err : string).

(** [websocket]'s [Message]: its [type] is ["utf8"] or ["binary"]. *)
Record WebSocketMessage := {
  type : string;
  utf8Data : string;
  binaryData : Bytes
}.

(** ** Events, effects and the client's fields *)

Definition Conn := nat.
Definition Timer := nat.

(** The events of [EventMap] the client emits itself. *)
Inductive ClientEvent :=
| EvClose
| EvMessageDecodingFailed (err : string)
| EvUnknownResponse (m : WebSocketMessage)
| EvProtoMessageFetchResult (r : ProtoMessageFetchResult)
| EvWebSocketData (m : WebSocketMessage)
| EvImEnteredRoom (d : DecodedWebcastPushFrame).

(** Observable effects, in the order they happen. *)
Inductive Effect :=
| TransportConnect (url protocol origin : string) (hdrs : JsObject)
| SendBytes (c : Conn) (data : Data)
| CloseConnection (c : Conn) (code : Z)
| Emit (e : ClientEvent)
| Resolve (promise : nat).

Record TikTokWsClient := {
  connection : option Conn;
  pingInterval : option Timer;
  wsHeaders : JsObject;
  wsUrlWithParams : string;
  webSocketParams : JsObject;
  webSocketPingIntervalMs : Z;
  closeListeners : list nat   (** resolvers registered with [once('close', ...)] *)
}.

(** The client with the runtime around it. *)
Record World := {
  client : TikTokWsClient;
  intervals : list (Timer * Z);        (** active [setInterval] timers and periods *)
  liveConns : list Conn;                 (** connections whose handlers are registered and that are open *)
  pendingDecodes : list (nat * Bytes);   (** awaited [deserializeWebSocketMessage] calls *)
  settled : list nat;                    (** resolved promises *)
  nextId : nat
}.

(** ** A state-and-output monad for the handlers *)

Definition M (A : Type) := World -> A * World * list Effect.

Definition ret {A} (a : A) : M A := fun w => (a, w, []).

Definition bind {A B} (m : M A) (k : A -> M B) : M B :=
  fun w => let '(a, w1, e1) := m w in
           let '(b, w2, e2) := k a w1 in
           (b, w2, e1 ++ e2).

Notation "x <- m ;; k" := (bind m (fun x => k))
  (at level 61, m at next level, right associativity).
Notation "m ;; k" := (bind m (fun _ => k)) (at level 61, right associativity).

Definition get : M World := fun w => (w, w, []).
Definition put (w : World) : M unit := fun _ => (tt, w, []).
Definition tell (e : Effect) : M unit := fun w => (tt, w, [e]).
Definition emit (e : ClientEvent) : M unit := tell (Emit e).

Definition set_client (c : TikTokWsClient) (w : World) : World :=
  {| client := c; intervals := intervals w; liveConns := liveConns w;
     pendingDecodes := pendingDecodes w; settled := settled w; nextId := nextId w |}.

Definition with_connection (x : option Conn) (c : TikTokWsClient) : TikTokWsClient :=
  {| connection := x; pingInterval := pingInterval c; wsHeaders := wsHeaders c;
     wsUrlWithParams := wsUrlWithParams c; webSocketParams := webSocketParams c;
     webSocketPingIntervalMs := webSocketPingIntervalMs c; closeListeners := closeListeners c |}.

Definition with_pingInterval (x : option Timer) (c : TikTokWsClient) : TikTokWsClient :=
  {| connection := connection c; pingInterval := x; wsHeaders := wsHeaders c;
     wsUrlWithParams := wsUrlWithParams c; webSocketParams := webSocketParams c;
     webSocketPingIntervalMs := webSocketPingIntervalMs c; closeListeners := closeListeners c |}.

Definition with_closeListeners (x : list nat) (c : TikTokWsClient) : TikTokWsClient :=
  {| connection := connection c; pingInterval := pingInterval c; wsHeaders := wsHeaders c;
     wsUrlWithParams := wsUrlWithParams c; webSocketParams := webSocketParams c;
     webSocketPingIntervalMs := webSocketPingIntervalMs c; closeListeners := x |}.

Definition modify_client (f : TikTokWsClient -> TikTokWsClient) : M unit :=
  w <- get ;; put (set_client (f (client w)) w).

Definition modify_world (f : World -> World) : M unit := w <- get ;; put (f w).

(** A fresh identifier for a timer, a promise or an awaited call. *)
Definition fresh : M nat :=
  fun w => (nextId w,
            {| client := client w; intervals := intervals w; liveConns := liveConns w;
               pendingDecodes := pendingDecodes w; settled := settled w;
               nextId := S (nextId w) |}, []).

Definition with_intervals (x : list (Timer * Z)) (w : World) : World :=
  {| client := client w; intervals := x; liveConns := liveConns w;
     pendingDecodes := pendingDecodes w; settled := settled w; nextId := nextId w |}.

Definition with_liveConns (x : list Conn) (w : World) : World :=
  {| client := client w; intervals := intervals w; liveConns := x;
     pendingDecodes := pendingDecodes w; settled := settled w; nextId := nextId w |}.

Definition with_pendingDecodes (x : list (nat * Bytes)) (w : World) : World :=
  {| client := client w; intervals := intervals w; liveConns := liveConns w;
     pendingDecodes := x; settled := settled w; nextId := nextId w |}.

Definition with_settled (x : list nat) (w : World) : World :=
  {| client := client w; intervals := intervals w; liveConns := liveConns w;
     pendingDecodes := pendingDecodes w; settled := x; nextId := nextId w |}.

(** [setInterval] and [clearInterval]. *)
Definition setInterval (period : Z) : M Timer :=
  h <- fresh ;;
  modify_world (fun w => with_intervals (intervals w ++ [(h, period)]) w) ;;
  ret h.

Definition clearInterval (h : option Timer) : M unit :=
  match h with
  | Some t => modify_world (fun w =>
                with_intervals (filter (fun tp => negb (Nat.eqb (fst tp) t)) (intervals w)) w)
  | None => ret tt
  end.

(** Resolving a promise; resolving a settled promise does nothing. *)
Definition resolve (p : nat) : M unit :=
  w <- get ;;
  if existsb (Nat.eqb p) (settled w) then ret tt
  else modify_world (fun w => with_settled (settled w ++ [p]) w) ;; tell (Resolve p).

Fixpoint resolve_all (ps : list nat) : M unit :=
  match ps with
  | [] => ret tt
  | p :: ps' => resolve p ;; resolve_all ps'
  end.

(** [this.emit('close')]: the event, then the [once] listeners, removed before they run. *)
Definition emit_close : M unit :=
  emit EvClose ;;
  w <- get ;;
  let ls := closeListeners (client w) in
  modify_client (with_closeListeners []) ;;
  resolve_all ls.

(** ** The client's methods *)

(** [sendBytes(data)] *)
Definition sendBytes (data : Data) : M bool :=
  w <- get ;;
  match connection (client w) with
  | Some c => tell (SendBytes c data) ;; ret true
  | None => ret false
  end.

(** [sendHeartbeat()] *)
Definition sendHeartbeat : M unit :=
  w <- get ;;
  let room_id := js_get (webSocketParams (client w)) "room_id" in
  let hb := {| hb_roomId := room_id |} in
  let webcastPushFrame :=
    createBaseWebcastPushFrame
      {| logId := None;
         payloadEncoding := Some "pb";
         payloadType := Some "hb";
         payload := Some (HeartbeatPayload hb);
         service := None;
         method := None;
         headers := Some [] |} in
  _ <- sendBytes (EncodedFrame webcastPushFrame) ;;
  ret tt.

(** [onConnect(wsConnection)]; registering the [message] and [close]
    handlers on the connection makes it live for the interpreter. *)
Definition onConnect (wsConnection : Conn) : M unit :=
  sendHeartbeat ;;
  modify_client (with_connection (Some wsConnection)) ;;
  w <- get ;;
  h <- setInterval (webSocketPingIntervalMs (client w)) ;;
  modify_client (with_pingInterval (Some h)) ;;
  modify_world (fun w => with_liveConns (liveConns w ++ [wsConnection]) w).

(** [onDisconnect()] *)
Definition onDisconnect : M unit :=
  w <- get ;;
  clearInterval (pingInterval (client w)) ;;
  modify_client (with_pingInterval None) ;;
  modify_client (with_connection None) ;;
  emit_close.

(** JavaScript truthiness of an optional string. *)
Definition truthy (s : option string) : bool :=
  match s with
  | Some v => negb (String.eqb v "")
  | None => false
  end.

(** [sendAck({ logId, protoMessageFetchResult: { internalExt } })] *)
Definition sendAck (logId' : option string) (internalExt' : string) : M unit :=
  if negb (truthy logId') then ret tt
  else
    let webcastPushFrame :=
      createBaseWebcastPushFrame
        {| logId := logId';
           payloadEncoding := Some "pb";
           payloadType := Some "ack";
           payload := Some (BytesPayload (textEncode internalExt'));
           service := None;
           method := None;
           headers := None |} in
    _ <- sendBytes (EncodedFrame webcastPushFrame) ;;
    ret tt.

(** [onMessage(message)] up to the [await]: the raw-data event, the
    non-binary branch, or the start of the decode. *)
Definition onMessage (message : WebSocketMessage) : M unit :=
  emit (EvWebSocketData message) ;;
  if negb (String.eqb (type message) "binary") then
    emit (EvUnknownResponse message)
  else
    id <- fresh ;;
    modify_world (fun w => with_pendingDecodes (pendingDecodes w ++ [(id, binaryData message)]) w).

(** [onMessage(message)] after the [await] of [deserializeWebSocketMessage]:
    the body of the [try], or the [catch] when the decode rejected. *)
Definition onMessageDecoded (r : DecodeResult) : M unit :=
  match r with
  | DecodeError err => emit (EvMessageDecodingFailed err)
  | DecodeOk decodedContainer =>
      match Decoded.protoMessageFetchResult decodedContainer with
      | Some res =>
          (if needsAck res
           then sendAck (Decoded.logId decodedContainer) (internalExt res)
           else ret tt) ;;
          emit (EvProtoMessageFetchResult res)
      | None => ret tt
      end ;;
      if String.eqb (Decoded.payloadType decodedContainer) "im_enter_room_resp"
      then emit (EvImEnteredRoom decodedContainer)
      else ret tt
  end.

(** The frame [switchRooms(roomId)] sends. *)
Definition switchRoomsFrame (roomId' : string) : WebcastPushFrame :=
  let imEnterRoomMessage :=
    {| roomId := roomId';
       roomTag := "";
       liveRegion := "";
       liveId := "12";
       identity := "audience";
       cursor := "";
       accountType := "0";
       enterUniqueId := "";
       filterWelcomeMsg := "0";
       isAnchorContinueKeepMsg := false |} in
  createBaseWebcastPushFrame
    {| logId := None;
       payloadEncoding := Some "pb";
       payloadType := Some "im_enter_room";
       payload := Some (ImEnterRoomPayload imEnterRoomMessage);
       service := None;
       method := None;
       headers := None |}.

(** [switchRooms(roomId)] *)
Definition switchRooms (roomId' : string) : M unit :=
  _ <- sendBytes (EncodedFrame (switchRoomsFrame roomId')) ;;
  ret tt.

(** [close()]: returns the promise; [once('close', resolve)] is registered
    first, then the connection is closed with 1000, or the promise resolved. *)
Definition close : M nat :=
  p <- fresh ;;
  w <- get ;;
  modify_client (with_closeListeners (closeListeners (client w) ++ [p])) ;;
  w <- get ;;
  match connection (client w) with
  | Some c => tell (CloseConnection c 1000)
  | None => resolve p
  end ;;
  ret p.

(** ** Construction *)

(** Static configuration constants ([Config]). *)
Record ConfigValues := {
  DEFAULT_WS_CLIENT_PARAMS_APPEND_PARAMETER : string;
  TIKTOK_HOST_WEB : string
}.

(** [new TikTokWsClient(wsUrl, cookieJar, webSocketParams, webSocketHeaders,
    webSocketOptions, webSocketPingIntervalMs)]; [cookieString] is
    [cookieJar.getCookieString()], and [webSocketOptions] are passed through
    to the transport untouched, so they are left out. *)
Definition new_TikTokWsClient (Config : ConfigValues) (wsUrl cookieString : string)
    (webSocketParams' : JsObject) (webSocketHeaders : option JsObject)
    (pingIntervalMs : option Z) : World * list Effect :=
  let url := (wsUrl ++ "?" ++ urlSearchParams webSocketParams'
              ++ DEFAULT_WS_CLIENT_PARAMS_APPEND_PARAMETER Config)%string in
  let hdrs := js_spread [("Cookie", cookieString)]
                        (match webSocketHeaders with Some h => h | None => [] end) in
  let c := {| connection := None; pingInterval := None; wsHeaders := hdrs;
              wsUrlWithParams := url; webSocketParams := webSocketParams';
              webSocketPingIntervalMs :=
                match pingIntervalMs with Some n => n | None => 10000%Z end;
              closeListeners := [] |} in
  ({| client := c; intervals := []; liveConns := []; pendingDecodes := [];
      settled := []; nextId := 0 |},
   [TransportConnect url "" ("https://" ++ TIKTOK_HOST_WEB Config)%string hdrs]).

(** ** Events delivered to the client *)

Inductive Input :=
| IConnect (c : Conn)                     (** the transport's [connect] event *)
| IMessage (c : Conn) (m : WebSocketMessage)  (** a [message] on connection [c] *)
| IDecoded (id : nat) (r : DecodeResult)  (** an awaited decode completes *)
| ITick (h : Timer)                       (** an interval timer fires *)
| IConnectionClose (c : Conn)             (** connection [c]'s [close] event *)
| ICallClose                              (** the caller calls [close()] *)
| ISwitchRooms (roomId : string)          (** the caller calls [switchRooms] *)
| ISendBytes (d : Data).                  (** the caller calls [sendBytes] *)

Definition step (i : Input) : M unit :=
  w <- get ;;
  match i with
  | IConnect c => onConnect c
  | IMessage c m =>
      if existsb (Nat.eqb c) (liveConns w) then onMessage m else ret tt
  | IDecoded id r =>
      if existsb (fun p => Nat.eqb (fst p) id) (pendingDecodes w) then
        modify_world (fun w =>
          with_pendingDecodes (filter (fun p => negb (Nat.eqb (fst p) id)) (pendingDecodes w)) w) ;;
        onMessageDecoded r
      else ret tt
  | ITick h =>
      if existsb (fun tp => Nat.eqb (fst tp) h) (intervals w) then sendHeartbeat else ret tt
  | IConnectionClose c =>
      if existsb (Nat.eqb c) (liveConns w) then
        modify_world (fun w => with_liveConns (filter (fun x => negb (Nat.eqb x c)) (liveConns w)) w) ;;
        onDisconnect
      else ret tt
  | ICallClose => _ <- close ;; ret tt
  | ISwitchRooms r => switchRooms r
  | ISendBytes d => _ <- sendBytes d ;; ret tt
  end.

Fixpoint run (is : list Input) : M unit :=
  match is with
  | [] => ret tt
  | i :: is' => step i ;; run is'
  end.

(** ** Observations on effect lists *)

(** The frames that went out on a connection. *)
Definition outbound_frames (es : list Effect) : list WebcastPushFrame :=
  flat_map (fun e => match e with
                     | SendBytes _ (EncodedFrame f) => [f]
                     | _ => []
                     end) es.

Definition is_ack_frame (f : WebcastPushFrame) : bool :=
  match payloadType f with Some t => String.eqb t "ack" | None => false end.

Definition ack_frames (es : list Effect) : list WebcastPushFrame :=
  filter is_ack_frame (outbound_frames es).

Definition is_heartbeat_frame (f : WebcastPushFrame) : bool :=
  match payloadType f with Some t => String.eqb t "hb" | None => false end.

Definition heartbeat_frames (es : list Effect) : list WebcastPushFrame :=
  filter is_heartbeat_frame (outbound_frames es).

(** The world after running a trace. *)
Definition after (is : list Input) (w : World) : World := snd (fst (run is w)).

(** ** Effect invariants of computations *)

Definition All_effects (P : Effect -> Prop) {A} (m : M A) : Prop :=
  forall w, Forall P (snd (m w)).

(** Frames built by the client carry the encoding ["pb"]; caller bytes excluded. *)
Definition built_frame_pb (e : Effect) : Prop :=
  match e with
  | SendBytes _ (EncodedFrame f) => payloadEncoding f = Some "pb"
  | SendBytes _ (RawBytes _) => False
  | _ => True
  end.

Definition caller_bytes (i : Input) : bool :=
  match i with ISendBytes _ => true | _ => false end.


(** Computations that never lower the identifier counter. *)
Definition Mono {A} (m : M A) : Prop := forall w, nextId w <= nextId (snd (fst (m w))).

Definition not_resolve (e : Effect) : Prop :=
  match e with Resolve _ => False | _ => True end.

(** ** A concrete session *)

Definition example_config : ConfigValues :=
  {| DEFAULT_WS_CLIENT_PARAMS_APPEND_PARAMETER := "&version_code=180800";
     TIKTOK_HOST_WEB := "www.tiktok.com" |}.

(** A client for room ["123"], before the transport connected. *)
Definition example_world : World :=
  fst (new_TikTokWsClient example_config "wss://webcast.tiktok.com/ws" "sessionid=abc"
                          [("room_id", "123")] None None).

Definition binary_message : WebSocketMessage :=
  {| type := "binary"; utf8Data := ""; binaryData := [8%Z; 1%Z] |}.

Definition ack_needing_container : DecodedWebcastPushFrame :=
  {| Decoded.logId := Some "L1";
     Decoded.payloadType := "msg";
     Decoded.protoMessageFetchResult := Some {| needsAck := true; internalExt := "abc" |} |}.

Definition connected_example : World := after [IConnect 7] example_world.

(** Computations that keep a property [Q] of the world and whose effects all
    satisfy [P]. *)
Definition Inv (Q : World -> Prop) (P : Effect -> Prop) {A} (m : M A) : Prop :=
  forall w, Q w -> Q (snd (fst (m w))) /\ Forall P (snd (m w)).

(** The heartbeat frame [sendHeartbeat] builds for a given [room_id]. *)
Definition heartbeat_frame (room_id : option string) : WebcastPushFrame :=
  {| logId := None; payloadEncoding := Some "pb"; payloadType := Some "hb";
     payload := Some (HeartbeatPayload {| hb_roomId := room_id |});
     headers := Some []; service := None; method := None |}.

Definition is_send (e : Effect) : bool :=
  match e with SendBytes _ _ => true | _ => false end.

Definition is_resolve (e : Effect) : Prop :=
  match e with Resolve _ => True | _ => False end.

(** A sent heartbeat is the frame built from the given room identifier. *)
Definition heartbeat_of (room_id : option string) (e : Effect) : Prop :=
  match e with
  | SendBytes _ (EncodedFrame f) => is_heartbeat_frame f = true -> f = heartbeat_frame room_id
  | _ => True
  end.

(** Characters a form-urlencoded string is made of. *)
Definition form_safe_char (a : ascii) : bool :=
  let n := nat_of_ascii a in
  (((48 <=? n) && (n <=? 57)) || ((65 <=? n) && (n <=? 90)) || ((97 <=? n) && (n <=? 122))
  || (n =? 42) || (n =? 45) || (n =? 46) || (n =? 95) || (n =? 43) || (n =? 37))%nat.

(** UTF-8 decoding of the two-byte forms [utf8_char] produces. *)
Fixpoint utf8_decode (bs : Bytes) : option string :=
  match bs with
  | [] => Some EmptyString
  | b :: rest =>
      if (b <? 128)%Z then
        option_map (String (ascii_of_nat (Z.to_nat b))) (utf8_decode rest)
      else
        match rest with
        | b2 :: rest' =>
            option_map
              (String (ascii_of_nat (Z.to_nat (Z.lor (Z.shiftl (Z.land b 31) 6) (Z.land b2 63)))))
              (utf8_decode rest')
        | [] => None
        end
  end.

(** Every character of a string satisfies [f]. *)
Fixpoint string_forallb (f : ascii -> bool) (s : string) : bool :=
  match s with
  | EmptyString => true
  | String a s' => f a && string_forallb f s'
  end.

Definition disconnected (w : World) : Prop := connection (client w) = None.

Definition no_send (e : Effect) : Prop := is_send e = false.

Definition is_connect (i : Input) : bool :=
  match i with IConnect _ => true | _ => false end.

Section Effects.
Variable P : Effect -> Prop.


Lemma ae_ret {A} (a : A) : All_effects P (ret a).
Proof. intro w. constructor. Qed.

Lemma ae_get : All_effects P get.
Proof. intro w. constructor. Qed.

Lemma ae_put w' : All_effects P (put w').
Proof. intro w. constructor. Qed.

Lemma ae_fresh : All_effects P fresh.
Proof. intro w. constructor. Qed.

Lemma ae_tell e : P e -> All_effects P (tell e).
Proof. intros H w. constructor; [exact H | constructor]. Qed.

Lemma ae_bind {A B} (m : M A) (k : A -> M B) :
  All_effects P m -> (forall a, All_effects P (k a)) -> All_effects P (bind m k).
Proof.
  intros Hm Hk w. unfold bind.
  destruct (m w) as [[a w1] e1] eqn:E1.
  destruct (k a w1) as [[b w2] e2] eqn:E2. simpl.
  apply Forall_app. split.
  - specialize (Hm w). rewrite E1 in Hm. exact Hm.
  - specialize (Hk a w1). rewrite E2 in Hk. exact Hk.
Qed.

End Effects.

Create HintDb effects.
#[export] Hint Resolve ae_ret ae_get ae_put ae_fresh : effects.

(** Splits a computation along its binds and case analyses. *)
Ltac ae_split :=
  repeat match goal with
         | |- All_effects _ (bind _ _) => apply ae_bind; [| intro]
         | |- All_effects _ (if ?b then _ else _) => destruct b
         | |- All_effects _ (match ?x with _ => _ end) => destruct x
         end.

Lemma ae_modify_world P f : All_effects P (modify_world f).
Proof. unfold modify_world. ae_split; auto with effects. Qed.

Lemma ae_modify_client P f : All_effects P (modify_client f).
Proof. unfold modify_client. ae_split; auto with effects. Qed.

#[export] Hint Resolve ae_modify_world ae_modify_client : effects.

Lemma ae_emit P ev : P (Emit ev) -> All_effects P (emit ev).
Proof. apply ae_tell. Qed.

Lemma ae_resolve P p : P (Resolve p) -> All_effects P (resolve p).
Proof. intro H. unfold resolve. ae_split; auto using ae_tell with effects. Qed.

Lemma ae_resolve_all P ps : (forall p, P (Resolve p)) -> All_effects P (resolve_all ps).
Proof.
  intro H. induction ps as [| p ps IH]; simpl; ae_split; auto using ae_resolve with effects.
Qed.

Lemma ae_emit_close P :
  P (Emit EvClose) -> (forall p, P (Resolve p)) -> All_effects P emit_close.
Proof. intros H1 H2. unfold emit_close. ae_split; auto using ae_emit, ae_resolve_all with effects. Qed.

Lemma ae_clearInterval P h : All_effects P (clearInterval h).
Proof. unfold clearInterval. ae_split; auto with effects. Qed.

Lemma ae_setInterval P n : All_effects P (setInterval n).
Proof. unfold setInterval. ae_split; auto with effects. Qed.

#[export] Hint Resolve ae_clearInterval ae_setInterval : effects.


Lemma ae_sendBytes P d : (forall c, P (SendBytes c d)) -> All_effects P (sendBytes d).
Proof. intro H. unfold sendBytes. ae_split; auto using ae_tell with effects. Qed.

Lemma pb_sendHeartbeat : All_effects built_frame_pb sendHeartbeat.
Proof.
  unfold sendHeartbeat. ae_split; auto with effects.
  apply ae_sendBytes. intro c. reflexivity.
Qed.

Lemma pb_sendAck l x : All_effects built_frame_pb (sendAck l x).
Proof.
  unfold sendAck. ae_split; auto with effects.
  apply ae_sendBytes. intro c. reflexivity.
Qed.

Lemma pb_switchRooms r : All_effects built_frame_pb (switchRooms r).
Proof.
  unfold switchRooms. ae_split; auto with effects.
  apply ae_sendBytes. intro c. reflexivity.
Qed.

Lemma pb_emit_close : All_effects built_frame_pb emit_close.
Proof. apply ae_emit_close; simpl; auto. Qed.

#[export] Hint Resolve pb_sendHeartbeat pb_sendAck pb_switchRooms pb_emit_close : effects.

Lemma pb_onMessageDecoded r : All_effects built_frame_pb (onMessageDecoded r).
Proof.
  unfold onMessageDecoded. ae_split; auto using ae_emit with effects; apply ae_emit; exact I.
Qed.

Lemma pb_step i : caller_bytes i = false -> All_effects built_frame_pb (step i).
Proof.
  intro Hi. unfold step. apply ae_bind; [auto with effects | intro w].
  destruct i; try discriminate Hi.
  - unfold onConnect. ae_split; auto with effects.
  - ae_split; auto with effects. unfold onMessage. ae_split; auto with effects;
      apply ae_emit; exact I.
  - ae_split; auto using pb_onMessageDecoded with effects.
  - ae_split; auto with effects.
  - ae_split; auto with effects. unfold onDisconnect. ae_split; auto with effects.
  - unfold close. ae_split; auto with effects.
    + apply ae_tell. exact I.
    + apply ae_resolve. exact I.
  - auto with effects.
Qed.

Lemma outbound_frames_pb es :
  Forall built_frame_pb es -> Forall (fun f => payloadEncoding f = Some "pb") (outbound_frames es).
Proof.
  induction 1 as [| e es He _ IH]; simpl; [constructor |].
  destruct e as [| c [f | b] | | |]; simpl in *; try contradiction; auto.
Qed.

(** ** Equations of the handlers *)

Lemma sendBytes_eq d w :
  sendBytes d w = match connection (client w) with
                  | Some c => (true, w, [SendBytes c d])
                  | None => (false, w, [])
                  end.
Proof. unfold sendBytes, bind, get, tell, ret. destruct (connection (client w)); reflexivity. Qed.

Lemma sendAck_eq l x w :
  sendAck l x w =
    (tt, w,
     if truthy l then
       match connection (client w) with
       | Some c => [SendBytes c (EncodedFrame
                     {| logId := l; payloadEncoding := Some "pb"; payloadType := Some "ack";
                        payload := Some (BytesPayload (textEncode x));
                        service := None; method := None; headers := None |})]
       | None => []
       end
     else []).
Proof.
  unfold sendAck. destruct (truthy l); simpl; [| reflexivity].
  unfold bind at 1. rewrite sendBytes_eq.
  destruct (connection (client w)); reflexivity.
Qed.

Lemma pb_run is :
  forallb (fun i => negb (caller_bytes i)) is = true -> All_effects built_frame_pb (run is).
Proof.
  induction is as [| i is IH]; simpl; intro H; [auto with effects |].
  apply andb_prop in H as [Hi His]. apply negb_true_iff in Hi.
  apply ae_bind; [apply pb_step; exact Hi | intros _; apply IH; exact His].
Qed.

Lemma onMessageDecoded_ok_eq d w :
  onMessageDecoded (DecodeOk d) w =
    (tt, w,
     match Decoded.protoMessageFetchResult d with
     | Some res =>
         (if needsAck res then snd (sendAck (Decoded.logId d) (internalExt res) w) else [])
         ++ [Emit (EvProtoMessageFetchResult res)]
     | None => []
     end
     ++ (if String.eqb (Decoded.payloadType d) "im_enter_room_resp"
         then [Emit (EvImEnteredRoom d)] else [])).
Proof.
  unfold onMessageDecoded.
  destruct (Decoded.protoMessageFetchResult d) as [res |];
    [destruct (needsAck res) |];
    unfold bind at 1; try (unfold bind at 1);
    try rewrite sendAck_eq; simpl;
    destruct (String.eqb (Decoded.payloadType d) "im_enter_room_resp"); simpl;
    rewrite ?app_nil_r; reflexivity.
Qed.


(** * Claims *)

(** C2 (counterexample): the heartbeat the client sends on a live session
    carries the encoding ["pb"], not ["protobuf"]. *)
Lemma heartbeat_encoding_not_protobuf :
  exists f, In f (outbound_frames (snd (run [IConnect 7; ITick 0] example_world)))
            /\ payloadEncoding f <> Some "protobuf".
Proof.
  vm_compute. eexists. split; [left; reflexivity | discriminate].
Qed.

(** C2 (amended): every frame the client builds and sends itself (heartbeat,
    ack, room-enter), along any trace of events without caller-supplied
    bytes, carries [payloadEncoding = "pb"]. *)
Theorem client_frames_payloadEncoding_pb (is : list Input) (w : World)
    (Hbuilt : forallb (fun i => negb (caller_bytes i)) is = true) :
  Forall (fun f => payloadEncoding f = Some "pb") (outbound_frames (snd (run is w))).
Proof. apply outbound_frames_pb, pb_run, Hbuilt. Qed.

Lemma client_frames_payloadEncoding_pb_witness :
  forallb (fun i => negb (caller_bytes i))
    [IConnect 7; ITick 0; ISwitchRooms "456"; IMessage 7 binary_message;
     IDecoded 1 (DecodeOk ack_needing_container)] = true
  /\ Forall (fun f => payloadEncoding f = Some "pb")
       (outbound_frames (snd (run [IConnect 7; ITick 0; ISwitchRooms "456";
                                   IMessage 7 binary_message;
                                   IDecoded 1 (DecodeOk ack_needing_container)] example_world))).
Proof.
  split; [reflexivity |].
  apply (client_frames_payloadEncoding_pb _ example_world). reflexivity.
Defined.

(** C9: [sendBytes] returns [false] and leaves the world untouched, with no
    effect, when there is no connection; otherwise it sends the data on the
    connection and returns [true]. *)
Theorem sendBytes_result (data : Data) (w : World) :
  sendBytes data w = match connection (client w) with
                     | Some c => (true, w, [SendBytes c data])
                     | None => (false, w, [])
                     end.
Proof. apply sendBytes_eq. Qed.

(** C8: while connected, [switchRooms roomId] sends exactly one frame, of
    type [im_enter_room], whose payload is the room-enter message with the
    given [roomId] and the fixed fields; the client and its room
    parameters are left unchanged. *)
Theorem switchRooms_sends_enter_room (w : World) (c : Conn) (roomId' : string)
    (Hc : connection (client w) = Some c) :
  exists f,
    switchRooms roomId' w = (tt, w, [SendBytes c (EncodedFrame f)])
    /\ payloadType f = Some "im_enter_room"
    /\ payload f = Some (ImEnterRoomPayload
                   {| roomId := roomId'; roomTag := ""; liveRegion := ""; liveId := "12";
                      identity := "audience"; cursor := ""; accountType := "0";
                      enterUniqueId := ""; filterWelcomeMsg := "0";
                      isAnchorContinueKeepMsg := false |}).
Proof.
  exists (switchRoomsFrame roomId'). split; [| split; reflexivity].
  unfold switchRooms, bind at 1. rewrite sendBytes_eq, Hc. reflexivity.
Qed.

Lemma switchRooms_sends_enter_room_witness :
  connection (client connected_example) = Some 7
  /\ exists f,
    switchRooms "456" connected_example = (tt, connected_example, [SendBytes 7 (EncodedFrame f)])
    /\ payloadType f = Some "im_enter_room"
    /\ payload f = Some (ImEnterRoomPayload
                   {| roomId := "456"; roomTag := ""; liveRegion := ""; liveId := "12";
                      identity := "audience"; cursor := ""; accountType := "0";
                      enterUniqueId := ""; filterWelcomeMsg := "0";
                      isAnchorContinueKeepMsg := false |}).
Proof.
  split; [reflexivity |].
  apply switchRooms_sends_enter_room. reflexivity.
Defined.

(** C4: after a successful decode, the ack (when [needsAck]) is attempted
    before the fetch-result event, which is published whatever the ack did;
    independently, an [im_enter_room_resp] container is published on the
    entered-room event, after the fetch-result branch when both apply. *)
Theorem decoded_container_dispatch (d : DecodedWebcastPushFrame) (w : World) :
  onMessageDecoded (DecodeOk d) w =
    (tt, w,
     match Decoded.protoMessageFetchResult d with
     | Some res =>
         (if needsAck res then snd (sendAck (Decoded.logId d) (internalExt res) w) else [])
         ++ [Emit (EvProtoMessageFetchResult res)]
     | None => []
     end
     ++ (if String.eqb (Decoded.payloadType d) "im_enter_room_resp"
         then [Emit (EvImEnteredRoom d)] else [])).
Proof. apply onMessageDecoded_ok_eq. Qed.

(** C3 (counterexample): the ack is sent through [sendBytes] after the
    decode was awaited; when the connection closed meanwhile, a container with
    [needsAck = true] and [logId = "L1"] is handled (its fetch result is
    published) but no ack frame goes out. *)
Lemma ack_dropped_when_closed_during_decode :
  let es := snd (run [IConnect 7; IMessage 7 binary_message; IConnectionClose 7;
                      IDecoded 1 (DecodeOk ack_needing_container)] example_world) in
  ack_frames es = []
  /\ In (Emit (EvProtoMessageFetchResult {| needsAck := true; internalExt := "abc" |})) es.
Proof. vm_compute. split; [reflexivity | repeat (first [left; reflexivity | right])]. Qed.

(** C3 (amended): for a decoded container whose fetch result needs an ack,
    exactly one ack frame is sent, with the container's [logId], type
    ["ack"] and the UTF-8 bytes of [internalExt] as payload, when the
    [logId] is present and non-empty and the connection is still open when
    the decode completes; with an absent or empty [logId] no ack frame is
    sent, and in every case no failure is reported and the client is
    unchanged. *)
Theorem ack_for_fetch_result (d : DecodedWebcastPushFrame) (res : ProtoMessageFetchResult)
    (w : World)
    (Hres : Decoded.protoMessageFetchResult d = Some res) (Hack : needsAck res = true) :
  onMessageDecoded (DecodeOk d) w =
    (tt, w,
     (if truthy (Decoded.logId d) then
        match connection (client w) with
        | Some c => [SendBytes c (EncodedFrame
                      {| logId := Decoded.logId d; payloadEncoding := Some "pb";
                         payloadType := Some "ack";
                         payload := Some (BytesPayload (textEncode (internalExt res)));
                         service := None; method := None; headers := None |})]
        | None => []
        end
      else [])
     ++ Emit (EvProtoMessageFetchResult res)
     :: (if String.eqb (Decoded.payloadType d) "im_enter_room_resp"
         then [Emit (EvImEnteredRoom d)] else [])).
Proof.
  rewrite onMessageDecoded_ok_eq, Hres, Hack, sendAck_eq. simpl.
  rewrite <- app_assoc. reflexivity.
Qed.

Lemma ack_for_fetch_result_witness :
  Decoded.protoMessageFetchResult ack_needing_container
    = Some {| needsAck := true; internalExt := "abc" |}
  /\ needsAck {| needsAck := true; internalExt := "abc" |} = true
  /\ ack_frames (snd (onMessageDecoded (DecodeOk ack_needing_container) connected_example))
     = [{| logId := Some "L1"; payloadEncoding := Some "pb"; payloadType := Some "ack";
           payload := Some (BytesPayload [97%Z; 98%Z; 99%Z]);
           service := None; method := None; headers := None |}].
Proof.
  split; [reflexivity | split; [reflexivity |]].
  rewrite (ack_for_fetch_result ack_needing_container {| needsAck := true; internalExt := "abc" |}
             connected_example); reflexivity.
Defined.

(** C5: every inbound message is first published as raw data; a message
    that is not binary is then published as an unknown response and nothing
    else happens: no decode is started and the world is unchanged. *)
Theorem onMessage_raw_then_classify (m : WebSocketMessage) (w : World) :
  onMessage m w =
    if String.eqb (type m) "binary" then
      (tt, {| client := client w; intervals := intervals w; liveConns := liveConns w;
              pendingDecodes := pendingDecodes w ++ [(nextId w, binaryData m)];
              settled := settled w; nextId := S (nextId w) |},
       [Emit (EvWebSocketData m)])
    else (tt, w, [Emit (EvWebSocketData m); Emit (EvUnknownResponse m)]).
Proof.
  unfold onMessage. destruct (String.eqb (type m) "binary"); reflexivity.
Qed.

(** C6: a failed decode publishes the decoding-failed event with the error
    and changes nothing else: the client (its connection included) is as
    before, nothing is sent or closed, and whatever runs next behaves
    exactly as if the failed message had not been there. *)
Theorem decode_failure_isolated (err : string) (w : World) (next : list Input) :
  onMessageDecoded (DecodeError err) w = (tt, w, [Emit (EvMessageDecodingFailed err)])
  /\ (onMessageDecoded (DecodeError err) ;; run next) w
     = (fst (run next w), Emit (EvMessageDecodingFailed err) :: snd (run next w)).
Proof.
  split; [reflexivity |].
  unfold bind at 1. simpl. destruct (run next w) as [[u w'] es]. reflexivity.
Qed.

(** ** Promises: identifiers only grow, and only close events resolve old ones *)


Lemma mono_ret {A} (a : A) : Mono (ret a).
Proof. intro w. simpl. lia. Qed.

Lemma mono_get : Mono get.
Proof. intro w. simpl. lia. Qed.

Lemma mono_tell e : Mono (tell e).
Proof. intro w. simpl. lia. Qed.

Lemma mono_fresh : Mono fresh.
Proof. intro w. simpl. lia. Qed.

Lemma mono_bind {A B} (m : M A) (k : A -> M B) :
  Mono m -> (forall a, Mono (k a)) -> Mono (bind m k).
Proof.
  intros Hm Hk w. unfold bind.
  destruct (m w) as [[a w1] e1] eqn:E1.
  destruct (k a w1) as [[b w2] e2] eqn:E2. simpl.
  specialize (Hm w). rewrite E1 in Hm. specialize (Hk a w1). rewrite E2 in Hk.
  simpl in *. lia.
Qed.

Lemma mono_modify_world f : (forall w, nextId (f w) = nextId w) -> Mono (modify_world f).
Proof. intros Hf w. simpl. rewrite Hf. lia. Qed.

Lemma mono_modify_client f : Mono (modify_client f).
Proof. intro w. simpl. lia. Qed.

Create HintDb mono.
#[export] Hint Resolve mono_ret mono_get mono_tell mono_fresh mono_modify_client : mono.
#[export] Hint Extern 1 (Mono (modify_world _)) => apply mono_modify_world; intro; reflexivity : mono.

Ltac mono_split :=
  repeat match goal with
         | |- Mono (bind _ _) => apply mono_bind; [| intro]
         | |- Mono (if ?b then _ else _) => destruct b
         | |- Mono (match ?x with _ => _ end) => destruct x
         end.

Lemma mono_sendBytes d : Mono (sendBytes d).
Proof. unfold sendBytes. mono_split; auto with mono. Qed.

Lemma mono_resolve_all ps : Mono (resolve_all ps).
Proof.
  induction ps as [| p ps IH]; simpl; mono_split; auto with mono.
  unfold resolve. mono_split; auto with mono.
Qed.

Lemma mono_step i : Mono (step i).
Proof.
  unfold step, onConnect, sendHeartbeat, sendBytes, onMessage, onMessageDecoded, sendAck,
    switchRooms, onDisconnect, emit_close, close, resolve, setInterval, clearInterval, emit.
  mono_split; auto using mono_resolve_all, mono_sendBytes with mono.
Qed.

Lemma nextId_after is w : nextId w <= nextId (after is w).
Proof.
  revert w. induction is as [| i is IH]; intro w; unfold after; simpl; [lia |].
  unfold bind at 1.
  destruct (step i w) as [[u w1] e1] eqn:E1.
  specialize (mono_step i w). rewrite E1. simpl. intro H1.
  specialize (IH w1). unfold after in IH.
  destruct (run is w1) as [[u2 w2] e2]. simpl in *. lia.
Qed.


Ltac nr_leaf :=
  first [ apply ae_tell; exact I
        | apply ae_emit; exact I
        | apply ae_sendBytes; intro; exact I
        | auto with effects ].

Lemma nr_step i :
  match i with ICallClose | IConnectionClose _ => False | _ => True end ->
  All_effects not_resolve (step i).
Proof.
  intro Hi. unfold step. apply ae_bind; [auto with effects | intro w].
  destruct i; try contradiction;
    unfold onConnect, sendHeartbeat, onMessage, onMessageDecoded, sendAck, switchRooms;
    ae_split; nr_leaf.
Qed.

Lemma close_effects w :
  snd (close w) = match connection (client w) with
                  | Some c => [CloseConnection c 1000]
                  | None => if existsb (Nat.eqb (nextId w)) (settled w) then []
                            else [Resolve (nextId w)]
                  end
  /\ fst (fst (close w)) = nextId w.
Proof.
  unfold close, resolve, modify_client, modify_world, bind, fresh, get, put, tell, ret. simpl.
  destruct (connection (client w)); simpl; [split; reflexivity |].
  destruct (existsb (Nat.eqb (nextId w)) (settled w)); split; reflexivity.
Qed.

Lemma step_ICallClose_effects w : snd (step ICallClose w) = snd (close w).
Proof.
  unfold step, bind at 1, get. simpl. unfold bind.
  destruct (close w) as [[q w1] es]. simpl. rewrite app_nil_r. reflexivity.
Qed.

Lemma resolve_only_on_close i w p :
  p < nextId w -> In (Resolve p) (snd (step i w)) -> exists c, i = IConnectionClose c.
Proof.
  intros Hp Hin.
  destruct i as [c | c m | id r | h | c | | r | d]; try (eexists; reflexivity);
    try (exfalso; refine (proj1 (Forall_forall not_resolve _) (nr_step _ _ w) _ Hin); exact I).
  exfalso. rewrite step_ICallClose_effects in Hin.
  destruct (close w) as [[q w1] es] eqn:E. simpl in Hin.
  destruct (close_effects w) as [Hes Hq]. rewrite E in Hes, Hq. simpl in Hes, Hq.
  subst es.
  destruct (connection (client w)); [destruct Hin as [H | []]; discriminate |].
  destruct (existsb (Nat.eqb (nextId w)) (settled w)); [destruct Hin |].
  destruct Hin as [H | []]. injection H as H. lia.
Qed.

Lemma existsb_In p l : existsb (Nat.eqb p) l = true <-> In p l.
Proof.
  rewrite existsb_exists. split.
  - intros [q [Hq Heq]]. apply Nat.eqb_eq in Heq. subst. exact Hq.
  - intro H. exists p. split; [exact H | apply Nat.eqb_refl].
Qed.

Lemma resolve_eq p w :
  resolve p w = if existsb (Nat.eqb p) (settled w) then (tt, w, [])
                else (tt, with_settled (settled w ++ [p]) w, [Resolve p]).
Proof. unfold resolve, modify_world, bind, get, put, tell, ret. simpl.
  destruct (existsb (Nat.eqb p) (settled w)); reflexivity. Qed.

Lemma resolve_all_resolves ps w p :
  In p ps -> ~ In p (settled w) -> In (Resolve p) (snd (resolve_all ps w)).
Proof.
  revert w. induction ps as [| q ps IH]; intros w Hin Hns; [destruct Hin |].
  simpl. unfold bind at 1. rewrite resolve_eq.
  destruct (Nat.eq_dec q p) as [-> | Hqp].
  - assert (existsb (Nat.eqb p) (settled w) = false) as ->.
    { destruct (existsb (Nat.eqb p) (settled w)) eqn:E; [| reflexivity].
      apply existsb_In in E. contradiction. }
    destruct (resolve_all ps _) as [[u w2] e2]. simpl. left. reflexivity.
  - destruct Hin as [Hin | Hin]; [contradiction |].
    destruct (existsb (Nat.eqb q) (settled w)).
    + specialize (IH w Hin Hns). destruct (resolve_all ps w) as [[u w2] e2]. exact IH.
    + assert (Hns' : ~ In p (settled (with_settled (settled w ++ [q]) w))).
      { simpl. rewrite in_app_iff. intros [H | [H | []]]; [contradiction | congruence]. }
      specialize (IH _ Hin Hns').
      destruct (resolve_all ps _) as [[u w2] e2]. simpl. right. exact IH.
Qed.

Lemma close_world_connected w c :
  connection (client w) = Some c ->
  snd (fst (close w)) =
    {| client := with_closeListeners (closeListeners (client w) ++ [nextId w]) (client w);
       intervals := intervals w; liveConns := liveConns w;
       pendingDecodes := pendingDecodes w; settled := settled w; nextId := S (nextId w) |}.
Proof.
  intro Hc. unfold close, modify_client, bind, fresh, get, put, tell, ret. simpl.
  rewrite Hc. reflexivity.
Qed.

Lemma close_event_resolves w p :
  In p (closeListeners (client w)) -> ~ In p (settled w) ->
  forall c, In c (liveConns w) -> In (Resolve p) (snd (step (IConnectionClose c) w)).
Proof.
  intros Hl Hs c Hc.
  unfold step, onDisconnect, emit_close, bind at 1, get. simpl.
  assert (existsb (Nat.eqb c) (liveConns w) = true) as -> by (apply existsb_In; exact Hc).
  unfold bind, modify_world, modify_client, clearInterval, get, put, emit, tell, ret.
  simpl. destruct (pingInterval (client w));
    unfold modify_world, bind, get, put, ret; simpl;
  match goal with |- context [resolve_all ?ps ?w'] =>
    pose proof (resolve_all_resolves ps w' p Hl Hs) as H;
    destruct (resolve_all ps w') as [[u w2] e2] end;
  simpl in *; rewrite ?app_nil_r; right; exact H.
Qed.

(** C7: [close()] returns a fresh promise.  On a connected client it
    requests the connection's close with code 1000 and resolves nothing; from
    then on the promise is resolved by no event but a connection [close]
    event, and the close event of the live connection does resolve it.  On a
    client with no connection it resolves the promise at once and sends or
    closes nothing. *)
Theorem close_resolves_on_close_event (w : World) (Hfresh : ~ In (nextId w) (settled w)) :
  let '(p, w1, es) := close w in
  p = nextId w /\
  match connection (client w) with
  | Some c =>
      es = [CloseConnection c 1000]
      /\ (forall pre i, In (Resolve p) (snd (step i (after pre w1))) ->
                        exists c', i = IConnectionClose c')
      /\ (In c (liveConns w) -> In (Resolve p) (snd (step (IConnectionClose c) w1)))
  | None => es = [Resolve p]
  end.
Proof.
  destruct (close_effects w) as [Hes Hp].
  destruct (connection (client w)) as [c |] eqn:Hc.
  - pose proof (close_world_connected w c Hc) as Hw.
    destruct (close w) as [[p w1] es]. simpl in Hes, Hp, Hw. subst p w1 es.
    split; [reflexivity |]. split; [reflexivity | split].
    + intros pre i Hin. eapply resolve_only_on_close; [| exact Hin].
      pose proof (nextId_after pre
        {| client := with_closeListeners (closeListeners (client w) ++ [nextId w]) (client w);
           intervals := intervals w; liveConns := liveConns w;
           pendingDecodes := pendingDecodes w; settled := settled w;
           nextId := S (nextId w) |}) as H. simpl in H. lia.
    + intro Hlive. apply close_event_resolves; simpl; [| exact Hfresh | exact Hlive].
      apply in_or_app. right. left. reflexivity.
  - destruct (close w) as [[p w1] es]. simpl in Hes, Hp. subst p.
    split; [reflexivity |].
    assert (existsb (Nat.eqb (nextId w)) (settled w) = false) as E.
    { destruct (existsb (Nat.eqb (nextId w)) (settled w)) eqn:E; [| reflexivity].
      apply existsb_In in E. contradiction. }
    rewrite E in Hes. exact Hes.
Qed.

Lemma close_resolves_on_close_event_witness :
  ~ In (nextId connected_example) (settled connected_example)
  /\ (let '(p, w1, es) := close connected_example in
      p = nextId connected_example /\
      match connection (client connected_example) with
      | Some c =>
          es = [CloseConnection c 1000]
          /\ (forall pre i, In (Resolve p) (snd (step i (after pre w1))) ->
                            exists c', i = IConnectionClose c')
          /\ (In c (liveConns connected_example) ->
              In (Resolve p) (snd (step (IConnectionClose c) w1)))
      | None => es = [Resolve p]
      end).
Proof.
  split; [vm_compute; intros [] |].
  apply close_resolves_on_close_event. vm_compute. intros [].
Defined.

(** ** Headers of the handshake *)

Lemma js_get_update o k v k' :
  js_get o k <> None ->
  js_get (js_update o k v) k' = if String.eqb k' k then Some v else js_get o k'.
Proof.
  induction o as [| [k1 v1] o IH]; simpl; intro Hk; [congruence |].
  destruct (String.eqb_spec k k1) as [-> | Hk1]; simpl.
  - destruct (String.eqb k' k1); reflexivity.
  - rewrite IH by exact Hk. destruct (String.eqb_spec k' k1) as [-> | Hk'].
    + destruct (String.eqb_spec k1 k); [congruence | reflexivity].
    + reflexivity.
Qed.

Lemma js_get_insert_index o n k v k' :
  js_get o k = None ->
  js_get (js_insert_index o n k v) k' = if String.eqb k' k then Some v else js_get o k'.
Proof.
  induction o as [| [k1 v1] o IH]; simpl; intro Hk; [reflexivity |].
  destruct (String.eqb_spec k k1) as [_ | Hk1]; [discriminate |].
  assert (Hswap : js_get ((k, v) :: (k1, v1) :: o) k'
                  = if String.eqb k' k then Some v
                    else if String.eqb k' k1 then Some v1 else js_get o k') by reflexivity.
  destruct (array_index k1) as [n' |]; [destruct (n <? n')%Z |];
    try exact Hswap.
  simpl. rewrite IH by exact Hk. destruct (String.eqb_spec k' k1) as [-> | Hk'].
  - destruct (String.eqb_spec k1 k); [congruence | reflexivity].
  - reflexivity.
Qed.

Lemma js_get_app_new o k v k' :
  js_get o k = None ->
  js_get (o ++ [(k, v)]) k' = if String.eqb k' k then Some v else js_get o k'.
Proof.
  induction o as [| [k1 v1] o IH]; simpl; intro Hk.
  - destruct (String.eqb k' k); reflexivity.
  - destruct (String.eqb_spec k k1) as [_ | Hk1]; [discriminate |].
    rewrite IH by exact Hk. destruct (String.eqb_spec k' k1) as [-> | Hk'].
    + destruct (String.eqb_spec k1 k); [congruence | reflexivity].
    + reflexivity.
Qed.

Lemma js_get_js_set o k v k' :
  js_get (js_set o k v) k' = if String.eqb k' k then Some v else js_get o k'.
Proof.
  unfold js_set. destruct (js_get o k) eqn:Hk.
  - apply js_get_update. congruence.
  - destruct (array_index k).
    + apply js_get_insert_index. exact Hk.
    + apply js_get_app_new. exact Hk.
Qed.

Lemma js_get_absent o k : ~ In k (map fst o) -> js_get o k = None.
Proof.
  induction o as [| [k1 v1] o IH]; simpl; intro H; [reflexivity |].
  destruct (String.eqb_spec k k1) as [-> | Hk]; [exfalso; apply H; left; reflexivity |].
  apply IH. intro H'. apply H. right. exact H'.
Qed.

Lemma js_get_spread t s k :
  NoDup (map fst s) ->
  js_get (js_spread t s) k = match js_get s k with Some v => Some v | None => js_get t k end.
Proof.
  unfold js_spread. revert t.
  induction s as [| [k1 v1] s IH]; intros t Hnd; simpl; [reflexivity |].
  inversion Hnd as [| ? ? Hk1 Hnd']; subst.
  rewrite IH by exact Hnd'. rewrite js_get_js_set.
  destruct (String.eqb_spec k k1) as [-> | Hk].
  - rewrite js_get_absent by exact Hk1. reflexivity.
  - destruct (js_get s k); reflexivity.
Qed.

(** C10: the handshake headers start from the session cookie and then take
    every caller-supplied header in: a caller [Cookie] value replaces the
    session cookie, the other caller keys are present with their values, and
    these headers are the ones handed to the transport's [connect]. *)
Theorem handshake_headers_caller_overrides_cookie (Config : ConfigValues)
    (wsUrl cookieString : string) (params hs : JsObject) (ms : option Z)
    (Hobj : NoDup (map fst hs)) :
  let '(w, es) := new_TikTokWsClient Config wsUrl cookieString params (Some hs) ms in
  es = [TransportConnect (wsUrlWithParams (client w)) ""
          ("https://" ++ TIKTOK_HOST_WEB Config)%string (wsHeaders (client w))]
  /\ (forall k, js_get (wsHeaders (client w)) k =
        if String.eqb k "Cookie"
        then match js_get hs "Cookie" with Some v => Some v | None => Some cookieString end
        else js_get hs k).
Proof.
  simpl. split; [reflexivity |].
  intro k. rewrite js_get_spread by exact Hobj. simpl.
  destruct (String.eqb_spec k "Cookie") as [-> | Hk].
  - destruct (js_get hs "Cookie"); reflexivity.
  - destruct (js_get hs k); reflexivity.
Qed.

Lemma handshake_headers_caller_overrides_cookie_witness :
  NoDup (map fst [("Cookie", "mine"); ("User-Agent", "x")])
  /\ (let '(w, es) := new_TikTokWsClient example_config "wss://webcast.tiktok.com/ws"
                        "sessionid=abc" [("room_id", "123")]
                        (Some [("Cookie", "mine"); ("User-Agent", "x")]) None in
      es = [TransportConnect (wsUrlWithParams (client w)) ""
              ("https://" ++ TIKTOK_HOST_WEB example_config)%string (wsHeaders (client w))]
      /\ (forall k, js_get (wsHeaders (client w)) k =
            if String.eqb k "Cookie"
            then match js_get [("Cookie", "mine"); ("User-Agent", "x")] "Cookie" with
                 | Some v => Some v | None => Some "sessionid=abc" end
            else js_get [("Cookie", "mine"); ("User-Agent", "x")] k)).
Proof.
  split.
  - repeat constructor; simpl; intuition discriminate.
  - apply handshake_headers_caller_overrides_cookie.
    repeat constructor; simpl; intuition discriminate.
Defined.

(** C1 (code bug): [onConnect] calls [sendHeartbeat()] before it stores the
    connection, so on a client without a connection the handler sends
    nothing at all: the heartbeat meant for connect time is dropped by
    [sendBytes], and the first heartbeat leaves only at the first tick. *)
Theorem onConnect_sends_no_heartbeat (w : World) (c : Conn)
    (Hnone : connection (client w) = None) :
  snd (onConnect c w) = [].
Proof.
  unfold onConnect, sendHeartbeat, setInterval, modify_client, modify_world,
    bind, get, put, fresh, ret.
  simpl. rewrite sendBytes_eq, Hnone. reflexivity.
Qed.

Lemma onConnect_sends_no_heartbeat_witness :
  connection (client example_world) = None
  /\ snd (onConnect 7 example_world) = []
  /\ heartbeat_frames (snd (run [IConnect 7] example_world)) = []
  /\ length (heartbeat_frames (snd (run [IConnect 7; ITick 0] example_world))) = 1%nat.
Proof.
  split; [reflexivity |]. split; [apply onConnect_sends_no_heartbeat; reflexivity |].
  split; vm_compute; reflexivity.
Defined.

(** * Further properties of the client *)

(** ** World invariants of computations *)

Section Invariants.
Variable Q : World -> Prop.
Variable P : Effect -> Prop.

Lemma inv_ret {A} (a : A) : Inv Q P (ret a).
Proof. intros w H. split; [exact H | constructor]. Qed.

Lemma inv_get : Inv Q P get.
Proof. intros w H. split; [exact H | constructor]. Qed.

Lemma inv_tell e : P e -> Inv Q P (tell e).
Proof. intros He w H. split; [exact H | repeat constructor; exact He]. Qed.

Lemma inv_fresh : (forall w, Q w -> Q (snd (fst (fresh w)))) -> Inv Q P fresh.
Proof. intros HQ w H. split; [apply HQ, H | constructor]. Qed.

Lemma inv_modify_world f : (forall w, Q w -> Q (f w)) -> Inv Q P (modify_world f).
Proof. intros Hf w H. split; [apply Hf, H | constructor]. Qed.

Lemma inv_modify_client f :
  (forall w, Q w -> Q (set_client (f (client w)) w)) -> Inv Q P (modify_client f).
Proof. intros Hf w H. split; [apply Hf, H | constructor]. Qed.

Lemma inv_bind {A B} (m : M A) (k : A -> M B) :
  Inv Q P m -> (forall a, Inv Q P (k a)) -> Inv Q P (bind m k).
Proof.
  intros Hm Hk w H. unfold bind.
  destruct (m w) as [[a w1] e1] eqn:E1.
  specialize (Hm w H). rewrite E1 in Hm. destruct Hm as [H1 F1].
  destruct (k a w1) as [[b w2] e2] eqn:E2.
  specialize (Hk a w1 H1). rewrite E2 in Hk. destruct Hk as [H2 F2].
  split; [exact H2 | apply Forall_app; split; assumption].
Qed.

Lemma inv_bind_get {B} (k : World -> M B) :
  (forall w0, Q w0 -> Inv Q P (k w0)) -> Inv Q P (bind get k).
Proof.
  intros Hk w H. unfold bind, get.
  destruct (k w w) as [[b w2] e2] eqn:E2.
  specialize (Hk w H w H). rewrite E2 in Hk. exact Hk.
Qed.

Lemma inv_resolve_all ps :
  (forall w x, Q w -> Q (with_settled x w)) -> (forall p, P (Resolve p)) ->
  Inv Q P (resolve_all ps).
Proof.
  intros HQ HP. induction ps as [| p ps IH]; simpl; [apply inv_ret |].
  apply inv_bind; [| intros _; exact IH].
  unfold resolve. apply inv_bind_get. intros w0 _.
  destruct (existsb (Nat.eqb p) (settled w0)); [apply inv_ret |].
  apply inv_bind; [apply inv_modify_world; intros; apply HQ; assumption | intros _].
  apply inv_tell, HP.
Qed.

End Invariants.

Ltac inv_split :=
  repeat match goal with
         | |- Inv _ _ (bind get _) => apply inv_bind_get; intros ? ?
         | |- Inv _ _ (bind _ _) => apply inv_bind; [| intro]
         | |- Inv _ _ (if ?b then _ else _) => destruct b
         | |- Inv _ _ (match ?x with _ => _ end) => destruct x
         end.

Ltac inv_leaf :=
  first [ apply inv_ret
        | apply inv_get
        | apply inv_tell; simpl; solve [auto | discriminate | intros; discriminate]
        | apply inv_fresh; intros; simpl; assumption
        | apply inv_modify_world; intros; simpl; assumption
        | apply inv_modify_client; intros; simpl; first [assumption | reflexivity] ].

(** ** Silence without a connection *)

Lemma inv_sendBytes_disconnected d : Inv disconnected no_send (sendBytes d).
Proof.
  intros w H. rewrite sendBytes_eq. unfold disconnected in H. rewrite H.
  split; [exact H | constructor].
Qed.

Lemma inv_step_disconnected i :
  is_connect i = false -> Inv disconnected no_send (step i).
Proof.
  intro Hi. unfold step. apply inv_bind_get. intros w0 _.
  destruct i; try discriminate Hi;
    unfold onMessage, onMessageDecoded, sendAck, sendHeartbeat, switchRooms,
      onDisconnect, emit_close, close, resolve, setInterval, clearInterval, emit;
    inv_split;
    try (apply inv_sendBytes_disconnected);
    try (apply inv_resolve_all; [intros; assumption | intros; reflexivity]);
    try inv_leaf.
Qed.

Lemma inv_run_disconnected is :
  forallb (fun i => negb (is_connect i)) is = true -> Inv disconnected no_send (run is).
Proof.
  induction is as [| i is IH]; intro Hall; simpl in *; [apply inv_ret |].
  apply andb_prop in Hall as [Hi Hall]. apply negb_true_iff in Hi.
  apply inv_bind; [apply inv_step_disconnected, Hi | intros _; apply IH, Hall].
Qed.

Lemma resolve_all_frame ps w :
  client (snd (fst (resolve_all ps w))) = client w
  /\ intervals (snd (fst (resolve_all ps w))) = intervals w
  /\ liveConns (snd (fst (resolve_all ps w))) = liveConns w
  /\ Forall is_resolve (snd (resolve_all ps w)).
Proof.
  pose proof (inv_resolve_all
    (fun w' => client w' = client w /\ intervals w' = intervals w /\ liveConns w' = liveConns w)
    is_resolve ps) as H.
  destruct (H (fun w' x H' => H') (fun p => I) w (conj eq_refl (conj eq_refl eq_refl)))
    as [[H1 [H2 H3]] H4].
  auto.
Qed.

(** X1: the close event of a live connection: [onDisconnect] clears the ping
    timer, drops the connection and the timer handle, emits [close] first and
    then only resolves the pending [close()] promises, which it unregisters. *)
Theorem close_event_tears_down (w : World) (c : Conn) (Hlive : In c (liveConns w)) :
  let '(_, w', es) := step (IConnectionClose c) w in
  connection (client w') = None
  /\ pingInterval (client w') = None
  /\ closeListeners (client w') = []
  /\ ~ In c (liveConns w')
  /\ (forall h, pingInterval (client w) = Some h ->
        ~ exists period, In (h, period) (intervals w'))
  /\ exists rs, es = Emit EvClose :: rs /\ Forall is_resolve rs.
Proof.
  unfold step, onDisconnect, emit_close, bind at 1, get. simpl.
  assert (existsb (Nat.eqb c) (liveConns w) = true) as -> by (apply existsb_In; exact Hlive).
  unfold bind, modify_world, modify_client, clearInterval, get, put, emit, tell, ret.
  simpl. destruct (pingInterval (client w)) as [h |] eqn:Hp;
    unfold modify_world, bind, get, put, ret; simpl;
  match goal with |- context [resolve_all ?ps ?w'] =>
    destruct (resolve_all_frame ps w') as [H1 [H2 [H3 H4]]];
    destruct (resolve_all ps w') as [[u w2] e2] end;
  simpl in *; rewrite H1, H2, H3; simpl;
  (split; [reflexivity | split; [reflexivity | split; [reflexivity | split]]]).
  - rewrite filter_In. intros [_ Hc]. rewrite Nat.eqb_refl in Hc. discriminate.
  - split; [| exists e2; rewrite ?app_nil_r; split; [reflexivity | exact H4]].
    intros h' Hh' [period Hin]. injection Hh' as <-.
    apply filter_In in Hin as [_ Hin]. simpl in Hin. rewrite Nat.eqb_refl in Hin. discriminate.
  - rewrite filter_In. intros [_ Hc]. rewrite Nat.eqb_refl in Hc. discriminate.
  - split; [intros h' Hh'; discriminate |].
    exists e2. rewrite ?app_nil_r. split; [reflexivity | exact H4].
Qed.

Lemma close_event_tears_down_witness :
  In 7 (liveConns connected_example)
  /\ (let '(_, w', es) := step (IConnectionClose 7) connected_example in
      connection (client w') = None
      /\ pingInterval (client w') = None
      /\ closeListeners (client w') = []
      /\ ~ In 7 (liveConns w')
      /\ (forall h, pingInterval (client connected_example) = Some h ->
            ~ exists period, In (h, period) (intervals w'))
      /\ exists rs, es = Emit EvClose :: rs /\ Forall is_resolve rs).
Proof.
  split; [vm_compute; left; reflexivity |].
  apply close_event_tears_down. vm_compute. left. reflexivity.
Defined.

(** X2: once the close event of the live connection has fired, no frame is
    sent by anything (heartbeat ticks, acks, room switches, caller bytes)
    until the transport connects again. *)
Theorem no_frames_after_close_event (w : World) (c : Conn) (rest : list Input)
    (Hlive : In c (liveConns w))
    (Hrest : forallb (fun i => negb (is_connect i)) rest = true) :
  Forall no_send (snd (run (IConnectionClose c :: rest) w)).
Proof.
  pose proof (close_event_tears_down w c Hlive) as HX.
  simpl. unfold bind at 1.
  destruct (step (IConnectionClose c) w) as [[u w1] e1].
  destruct HX as [Hc [_ [_ [_ [_ [rs [-> Hrs]]]]]]].
  destruct (inv_run_disconnected rest Hrest w1 Hc) as [_ Hns].
  destruct (run rest w1) as [[u2 w2] e2]. simpl in *.
  constructor; [reflexivity |].
  apply Forall_app. split; [| exact Hns].
  eapply Forall_impl; [| exact Hrs]. intros [] H; simpl in *; try contradiction; reflexivity.
Qed.

Lemma no_frames_after_close_event_witness :
  In 7 (liveConns connected_example)
  /\ forallb (fun i => negb (is_connect i)) [ITick 0; ISwitchRooms "456"; ISendBytes (RawBytes [1%Z])] = true
  /\ Forall no_send (snd (run [IConnectionClose 7; ITick 0; ISwitchRooms "456";
                               ISendBytes (RawBytes [1%Z])] connected_example)).
Proof.
  split; [vm_compute; left; reflexivity | split; [reflexivity |]].
  apply no_frames_after_close_event; [vm_compute; left; reflexivity | reflexivity].
Defined.

(** ** The room identifier of heartbeats *)

Lemma inv_sendBytes Q P d : (forall c, P (SendBytes c d)) -> Inv Q P (sendBytes d).
Proof.
  intros HP w H. rewrite sendBytes_eq.
  destruct (connection (client w)); (split; [exact H | repeat constructor; apply HP]).
Qed.

Lemma inv_step_room params i :
  caller_bytes i = false ->
  Inv (fun w => webSocketParams (client w) = params) (heartbeat_of (js_get params "room_id")) (step i).
Proof.
  intro Hi. unfold step. apply inv_bind_get. intros w0 _.
  destruct i; try discriminate Hi;
    unfold onConnect, onMessage, onMessageDecoded, sendAck, sendHeartbeat, switchRooms,
      onDisconnect, emit_close, close, resolve, setInterval, clearInterval, emit;
    inv_split;
    try (apply inv_sendBytes; intro; simpl; intros;
         solve [discriminate | congruence]);
    try (apply inv_resolve_all; [intros; assumption | intros; exact I]);
    try inv_leaf.
  all: apply inv_sendBytes; intro; unfold heartbeat_frame, createBaseWebcastPushFrame;
    simpl; intros;
    match goal with H : webSocketParams _ = _ |- _ => rewrite H end; reflexivity.
Qed.

(** X3: [webSocketParams] is never changed, and along every trace without
    caller-supplied bytes each heartbeat frame sent is the one built from the
    [room_id] the client was constructed with: [switchRooms] does not change
    the room the heartbeats name. *)
Theorem heartbeats_carry_construction_room_id (is : list Input) (w : World)
    (Hbuilt : forallb (fun i => negb (caller_bytes i)) is = true) :
  webSocketParams (client (after is w)) = webSocketParams (client w)
  /\ Forall (fun f => f = heartbeat_frame (js_get (webSocketParams (client w)) "room_id"))
            (heartbeat_frames (snd (run is w))).
Proof.
  set (params := webSocketParams (client w)).
  assert (Inv (fun w => webSocketParams (client w) = params)
              (heartbeat_of (js_get params "room_id")) (run is)) as H.
  { clear -Hbuilt. induction is as [| i is IH]; simpl in *; [apply inv_ret |].
    apply andb_prop in Hbuilt as [Hi Hb]. apply negb_true_iff in Hi.
    apply inv_bind; [apply inv_step_room, Hi | intros _; apply IH, Hb]. }
  destruct (H w eq_refl) as [H1 H2]. split; [exact H1 |].
  clear H H1. induction H2 as [| e es He _ IH]; [constructor |].
  unfold heartbeat_frames, outbound_frames in *. simpl.
  destruct e as [| c [f | b] | | |]; simpl in *; try exact IH.
  destruct (is_heartbeat_frame f) eqn:E; [constructor; [apply He; first [exact E | reflexivity] | exact IH] | exact IH].
Qed.

Lemma heartbeats_carry_construction_room_id_witness :
  forallb (fun i => negb (caller_bytes i)) [IConnect 7; ISwitchRooms "456"; ITick 0] = true
  /\ webSocketParams (client (after [IConnect 7; ISwitchRooms "456"; ITick 0] example_world))
     = webSocketParams (client example_world)
  /\ Forall (fun f => f = heartbeat_frame (js_get (webSocketParams (client example_world)) "room_id"))
            (heartbeat_frames (snd (run [IConnect 7; ISwitchRooms "456"; ITick 0] example_world))).
Proof.
  split; [reflexivity |]. apply heartbeats_carry_construction_room_id. reflexivity.
Defined.

(** ** Heartbeat cadence *)

Lemma step_tick_eq h w :
  step (ITick h) w =
    (tt, w,
     if existsb (fun tp => Nat.eqb (fst tp) h) (intervals w) then
       match connection (client w) with
       | Some c => [SendBytes c (EncodedFrame
                     (heartbeat_frame (js_get (webSocketParams (client w)) "room_id")))]
       | None => []
       end
     else []).
Proof.
  unfold step, bind at 1, get. simpl.
  destruct (existsb (fun tp => Nat.eqb (fst tp) h) (intervals w)); [| reflexivity].
  unfold sendHeartbeat, bind at 1, get. simpl. unfold bind.
  rewrite sendBytes_eq. destruct (connection (client w)); reflexivity.
Qed.

(** X4: [n] firings of a timer send exactly [n] heartbeat frames on the
    connection when the timer is active and the client connected, nothing
    otherwise, and leave the client and its timers as they were. *)
Theorem ticks_send_one_heartbeat_each (h : Timer) (n : nat) (w : World) :
  run (repeat (ITick h) n) w =
    (tt, w,
     if existsb (fun tp => Nat.eqb (fst tp) h) (intervals w) then
       match connection (client w) with
       | Some c => repeat (SendBytes c (EncodedFrame
                     (heartbeat_frame (js_get (webSocketParams (client w)) "room_id")))) n
       | None => []
       end
     else []).
Proof.
  induction n as [| n IH]; simpl.
  - destruct (existsb _ _); [destruct (connection (client w)) |]; reflexivity.
  - unfold bind at 1. rewrite step_tick_eq, IH.
    destruct (existsb _ _); [destruct (connection (client w)) |]; reflexivity.
Qed.


(** ** Closing twice *)

Lemma step_ICallClose_eq w : step ICallClose w = (tt, snd (fst (close w)), snd (close w)).
Proof.
  unfold step, bind at 1, get. simpl. unfold bind.
  destruct (close w) as [[q w1] es]. simpl. rewrite app_nil_r. reflexivity.
Qed.

(** X6: calling [close()] twice on a connected client requests the close
    of the connection twice (code 1000 each time), and the connection's
    single close event resolves both returned promises. *)
Theorem close_twice_both_resolved (w : World) (c : Conn)
    (Hc : connection (client w) = Some c) (Hlive : In c (liveConns w))
    (Hs1 : ~ In (nextId w) (settled w)) (Hs2 : ~ In (S (nextId w)) (settled w)) :
  let '(_, w2, es) := run [ICallClose; ICallClose] w in
  es = [CloseConnection c 1000; CloseConnection c 1000]
  /\ In (Resolve (nextId w)) (snd (step (IConnectionClose c) w2))
  /\ In (Resolve (S (nextId w))) (snd (step (IConnectionClose c) w2)).
Proof.
  simpl. unfold bind at 1. rewrite step_ICallClose_eq.
  rewrite (proj1 (close_effects w)), Hc, (close_world_connected w c Hc).
  remember {| client := with_closeListeners (closeListeners (client w) ++ [nextId w]) (client w);
              intervals := intervals w; liveConns := liveConns w;
              pendingDecodes := pendingDecodes w; settled := settled w;
              nextId := S (nextId w) |} as w1 eqn:Ew1.
  assert (Hc1 : connection (client w1) = Some c) by (subst w1; exact Hc).
  unfold bind at 1. rewrite step_ICallClose_eq.
  rewrite (proj1 (close_effects w1)), Hc1, (close_world_connected w1 c Hc1).
  simpl. split; [reflexivity |].
  subst w1.
  split; apply close_event_resolves; simpl; try assumption;
    rewrite <- app_assoc; apply in_or_app; right; simpl; auto.
Qed.

Lemma close_twice_both_resolved_witness :
  connection (client connected_example) = Some 7
  /\ In 7 (liveConns connected_example)
  /\ ~ In (nextId connected_example) (settled connected_example)
  /\ ~ In (S (nextId connected_example)) (settled connected_example)
  /\ (let '(_, w2, es) := run [ICallClose; ICallClose] connected_example in
      es = [CloseConnection 7 1000; CloseConnection 7 1000]
      /\ In (Resolve (nextId connected_example)) (snd (step (IConnectionClose 7) w2))
      /\ In (Resolve (S (nextId connected_example))) (snd (step (IConnectionClose 7) w2))).
Proof.
  split; [reflexivity |]. split; [vm_compute; left; reflexivity |].
  split; [vm_compute; intros [] |]. split; [vm_compute; intros [] |].
  apply close_twice_both_resolved;
    [reflexivity | vm_compute; left; reflexivity | vm_compute; intros [] | vm_compute; intros []].
Defined.

(** ** Query-string encoding *)

Lemma string_forallb_app f s1 s2 :
  string_forallb f (s1 ++ s2)%string = string_forallb f s1 && string_forallb f s2.
Proof.
  induction s1 as [| a s1 IH]; simpl; [reflexivity |].
  rewrite IH, andb_assoc. reflexivity.
Qed.

Lemma string_forallb_concat_empty f l :
  string_forallb f (String.concat "" l) = forallb (string_forallb f) l.
Proof.
  induction l as [| x l IH]; [reflexivity |].
  destruct l as [| y l].
  - simpl. rewrite andb_true_r. reflexivity.
  - change (String.concat "" (x :: y :: l)) with (x ++ "" ++ String.concat "" (y :: l))%string.
    rewrite string_forallb_app. cbn [String.append]. rewrite IH. reflexivity.
Qed.

Lemma forallb_map_comp {A B} (f : B -> bool) (g : A -> B) l :
  forallb f (map g l) = forallb (fun x => f (g x)) l.
Proof. induction l as [| x l IH]; simpl; [reflexivity | rewrite IH; reflexivity]. Qed.

Lemma form_byte_utf8_char_safe (a : ascii) :
  forallb (fun b => string_forallb form_safe_char (form_byte b)) (utf8_char a) = true.
Proof.
  destruct a as [[] [] [] [] [] [] [] []]; vm_compute; reflexivity.
Qed.

(** X7: [new URLSearchParams] percent-encodes every key and value into
    letters, digits and the characters [* - . _ + %] only: no encoded key
    or value contains ['&'], ['='], ['#'] or ['?'], so the query string of
    [wsUrlWithParams] is split back into exactly the caller's pairs. *)
Theorem form_urlencode_query_safe (s : string) :
  string_forallb form_safe_char (form_urlencode s) = true.
Proof.
  unfold form_urlencode. rewrite string_forallb_concat_empty, forallb_map_comp.
  induction s as [| a s IH]; [reflexivity |].
  simpl. rewrite forallb_app, form_byte_utf8_char_safe. exact IH.
Qed.

(** ** Acknowledgement payload *)

Lemma utf8_decode_char (a : ascii) (rest : Bytes) :
  utf8_decode (utf8_char a ++ rest) = option_map (String a) (utf8_decode rest).
Proof.
  destruct a as [[] [] [] [] [] [] [] []]; reflexivity.
Qed.

Lemma utf8_decode_textEncode (s : string) : utf8_decode (textEncode s) = Some s.
Proof.
  induction s as [| a s IH]; [reflexivity |].
  simpl. rewrite utf8_decode_char, IH. reflexivity.
Qed.

(** X8: the acknowledgement frame determines the [internalExt] it carries:
    two acknowledgements sent for the same [logId] on the same connection
    are equal only when their [internalExt] strings are equal. *)
Theorem ack_payload_determines_internalExt (l : option string) (x1 x2 : string)
    (w : World) (c : Conn)
    (Hl : truthy l = true) (Hc : connection (client w) = Some c)
    (Heq : snd (sendAck l x1 w) = snd (sendAck l x2 w)) :
  x1 = x2.
Proof.
  rewrite !sendAck_eq, Hl, Hc in Heq. simpl in Heq.
  injection Heq as Hx.
  apply (f_equal utf8_decode) in Hx.
  rewrite !utf8_decode_textEncode in Hx. injection Hx as Hx. exact Hx.
Qed.

Lemma ack_payload_determines_internalExt_witness :
  truthy (Some "L1") = true /\ connection (client connected_example) = Some 7
  /\ snd (sendAck (Some "L1") "abc" connected_example)
     = snd (sendAck (Some "L1") "abc" connected_example)
  /\ "abc"%string = "abc"%string.
Proof.
  split; [reflexivity |]. split; [reflexivity |]. split; [reflexivity |].
  apply (ack_payload_determines_internalExt (Some "L1") "abc" "abc" connected_example 7);
    reflexivity.
Defined.

(** ** Connect events *)

